(** * The curses facade of [cursesdef.h] (namespace [catacurses])

    A shallow embedding of the window handle ([window]), the scoped owner
    ([WINDOW_PTR], a [std::unique_ptr] with [delwin_functor] as deleter), the
    [base_color] enumeration and the formatted-text overloads, together with
    the properties the specification states about them. *)

From Stdlib Require Import ZArith NArith String.
From stdpp Require Import base option list gmap.

Local Open Scope Z_scope.

(** ** Native pointers

    A pointer [T *] is an address; its pointee type is only known statically,
    so it is an index of the Rocq type and not part of the value.  Address [0]
    is [nullptr]. *)

Record pointer (T : Type) : Type := Ptr { addr : N }.
Arguments Ptr {T} _.
Arguments addr {T} _.

Definition nullptr {T : Type} : pointer T := Ptr 0%N.

(** [static_cast<U *>( p )] between an object pointer and [void *] keeps the
    address and changes the static type. *)
Definition static_cast {T U : Type} (p : pointer T) : pointer U := Ptr (addr p).

(** [p == q] on pointers compares addresses. *)
Definition pointer_eqb {T : Type} (p q : pointer T) : bool := N.eqb (addr p) (addr q).

Definition is_null {T : Type} (p : pointer T) : bool := N.eqb (addr p) 0%N.

(** [void] has no values; [using WINDOW = void;] *)
Inductive void : Set := .
Definition WINDOW : Type := void.

(** ** [class window] *)

Record window : Type := mk_window { native_window : pointer WINDOW }.

Module Window.

(** [window() : native_window( nullptr ) { }] *)
Definition ctor_default : window := mk_window nullptr.

(** [template<typename T> window( T *const ptr )
      : native_window( static_cast<WINDOW *>( ptr ) ) { }] *)
Definition ctor {T : Type} (ptr : pointer T) : window :=
  mk_window (static_cast ptr).

(** The implicitly declared copy constructor copies the only member. *)
Definition copy (other : window) : window := mk_window (native_window other).

(** [template<typename T = WINDOW> T * get() const
      { return static_cast<T *>( native_window ); }] *)
Definition get {T : Type} (w : window) : pointer T :=
  static_cast (native_window w).

(** [operator WINDOW *() const { return get(); }] *)
Definition to_WINDOW_ptr (w : window) : pointer WINDOW := get (T := WINDOW) w.

(** [a == b] on two [window]s: neither operand is a pointer, both are
    converted with [operator WINDOW *] and the built-in pointer comparison
    is used. *)
Definition eqb (a b : window) : bool :=
  pointer_eqb (to_WINDOW_ptr a) (to_WINDOW_ptr b).

(** [win == nullptr] / [!win] through the same conversion. *)
Definition is_null (w : window) : bool := is_null (to_WINDOW_ptr w).

End Window.

(** ** [enum base_color : short] *)

Inductive base_color : Set :=
| black | red | green | yellow | blue | magenta | cyan | white.

(** The enumerator values as written in the header ([0x00] .. [0x07]). *)
Definition base_color_value (c : base_color) : Z :=
  match c with
  | black => 0x00
  | red => 0x01
  | green => 0x02
  | yellow => 0x03
  | blue => 0x04
  | magenta => 0x05
  | cyan => 0x06
  | white => 0x07
  end.

(** The enumerators in declaration order. *)
Definition base_color_enumerators : list base_color :=
  [black; red; green; yellow; blue; magenta; cyan; white].

(** Range of the underlying type [short] (16 bits, two's complement). *)
Definition short_min : Z := - 2 ^ 15.
Definition short_max : Z := 2 ^ 15 - 1.

(** ** Backend effects

    Every drawing function of the header is only declared there and is
    supplied by the linked backend.  A call is a state transformer over the
    backend's state; [void] functions return [unit]. *)

Definition M (B A : Type) : Type := B -> A * B.

Definition ret {B A : Type} (a : A) : M B A := fun b => (a, b).

Definition bind {B A C : Type} (m : M B A) (k : A -> M B C) : M B C :=
  fun b => let (a, b') := m b in k a b'.

#[export] Instance M_ret (B : Type) : MRet (M B) := fun A a => ret a.
#[export] Instance M_bind (B : Type) : MBind (M B) := fun A C k m => bind m k.

(** The functions of the header that the properties below talk about:
    [void delwin( const window &win )], [void wrefresh( const window &win )],
    [void werase( const window &win )] and the plain-string forms
    [void mvwprintw( const window &win, int y, int x, const std::string &text )],
    [void wprintw( const window &win, const std::string &text )]. *)
Class Backend (B : Type) : Type := {
  delwin : window -> M B unit;
  wrefresh : window -> M B unit;
  werase : window -> M B unit;
  mvwprintw : window -> Z -> Z -> string -> M B unit;
  wprintw : window -> string -> M B unit
}.

(** A backend double that only records the calls it receives, in call order. *)
Inductive backend_call : Type :=
| call_delwin (win : window)
| call_wrefresh (win : window)
| call_werase (win : window)
| call_mvwprintw (win : window) (y x : Z) (text : string)
| call_wprintw (win : window) (text : string).

Definition record (c : backend_call) : M (list backend_call) unit :=
  fun tr => (tt, tr ++ [c]).

#[export] Instance Recorder : Backend (list backend_call) := {
  delwin win := record (call_delwin win);
  wrefresh win := record (call_wrefresh win);
  werase win := record (call_werase win);
  mvwprintw win y x text := record (call_mvwprintw win y x text);
  wprintw win text := record (call_wprintw win text)
}.

(** ** Operations of [window] as computations

    The members of [window] have bodies in the header; none of them calls a
    backend function.  [run_window_op] runs one of them against a backend. *)

Inductive window_op : Type :=
| window_construct_default
| window_construct (T : Type) (ptr : pointer T)
| window_copy (other : window)
| window_get (T : Type) (w : window)
| window_convert (w : window)
| window_destroy (w : window).

Inductive window_op_result : Type :=
| made_window (w : window)
| got_pointer (T : Type) (p : pointer T)
| nothing.

Definition run_window_op {B : Type} (op : window_op) : M B window_op_result :=
  match op with
  | window_construct_default => ret (made_window Window.ctor_default)
  | window_construct T ptr => ret (made_window (Window.ctor ptr))
  | window_copy other => ret (made_window (Window.copy other))
  | window_get T w => ret (got_pointer T (Window.get w))
  | window_convert w => ret (got_pointer WINDOW (Window.to_WINDOW_ptr w))
  | window_destroy w => ret nothing   (* [~window() { }] *)
  end.

Fixpoint run_window_ops {B : Type} (ops : list window_op)
  : M B (list window_op_result) :=
  match ops with
  | [] => ret []
  | op :: rest =>
      r ← run_window_op op;
      rs ← run_window_ops rest;
      ret (r :: rs)
  end.

(** ** [std::unique_ptr<WINDOW, D>]

    The owner stores one pointer; the deleter is stateless.  The members
    follow the C++ standard ([unique.ptr.single]); each is a computation so
    that the calls it makes to the deleter are visible. *)

Record unique_ptr : Type := mk_unique_ptr { stored : pointer WINDOW }.

Module UniquePtr.
Section with_deleter.

Context {B : Type} (deleter : pointer WINDOW -> M B unit).

(** [explicit unique_ptr( pointer p ) noexcept] *)
Definition ctor (p : pointer WINDOW) : M B unique_ptr := ret (mk_unique_ptr p).

(** [pointer get() const noexcept] *)
Definition get (u : unique_ptr) : pointer WINDOW := stored u.

(** [pointer release() noexcept]: returns the stored pointer and stores
    [nullptr]; the deleter is not called. *)
Definition release (u : unique_ptr) : M B (pointer WINDOW * unique_ptr) :=
  ret (get u, mk_unique_ptr nullptr).

(** [void reset( pointer p = pointer() ) noexcept]: stores [p], then calls
    the deleter on the old pointer if that is not null. *)
Definition reset (p : pointer WINDOW) (u : unique_ptr) : M B unique_ptr :=
  let old_p := get u in
  let u' := mk_unique_ptr p in
  if is_null old_p then ret u' else (deleter old_p;; ret u').

(** [~unique_ptr()]: [if( get() != nullptr ) get_deleter()( get() );] *)
Definition dtor (u : unique_ptr) : M B unit :=
  if is_null (get u) then ret tt else deleter (get u).

(** [unique_ptr( unique_ptr &&u ) noexcept]: built from [u.release()].
    Returns the new owner and the moved-from source. *)
Definition move_ctor (src : unique_ptr) : M B (unique_ptr * unique_ptr) :=
  '(p, src') ← release src;
  dst ← ctor p;
  ret (dst, src').

End with_deleter.
End UniquePtr.

(** ** [struct delwin_functor] and [WINDOW_PTR] *)

(** Modelled from the spec: the body of [delwin_functor::operator()] is not
    in the header, which only declares it and documents it ("This includes
    calling werase, wrefresh and delwin").  Following the specification it
    erases the window's contents, flushes to the display and destroys the
    underlying window object, in that order.  Each callee takes a
    [const window &], so the pointer is converted with [window( T * )]. *)
Definition delwin_functor {B : Type} `{Backend B} (w : pointer WINDOW) : M B unit :=
  werase (Window.ctor w);;
  wrefresh (Window.ctor w);;
  delwin (Window.ctor w).

(** [using WINDOW_PTR = std::unique_ptr<WINDOW, delwin_functor>;] *)
Definition WINDOW_PTR : Type := unique_ptr.

Module WindowPtr.
Section with_backend.

Context {B : Type} `{Backend B}.

Definition ctor (p : pointer WINDOW) : M B WINDOW_PTR := UniquePtr.ctor p.
Definition get (u : WINDOW_PTR) : pointer WINDOW := UniquePtr.get u.
Definition release (u : WINDOW_PTR) : M B (pointer WINDOW * WINDOW_PTR) :=
  UniquePtr.release u.
Definition reset (p : pointer WINDOW) (u : WINDOW_PTR) : M B WINDOW_PTR :=
  UniquePtr.reset delwin_functor p u.
Definition dtor (u : WINDOW_PTR) : M B unit := UniquePtr.dtor delwin_functor u.
Definition move_ctor (src : WINDOW_PTR) : M B (WINDOW_PTR * WINDOW_PTR) :=
  UniquePtr.move_ctor src.

End with_backend.
End WindowPtr.

(** The calls a backend double sees for one teardown of [w]. *)
Definition teardown_calls (w : pointer WINDOW) : list backend_call :=
  [call_werase (Window.ctor w); call_wrefresh (Window.ctor w);
   call_delwin (Window.ctor w)].

(** *** One owner in a block

    [{ WINDOW_PTR u( p0 ); ops... }]: the member calls made on [u], then the
    destructor at the closing brace. *)

Inductive owner_op : Type :=
| op_reset (p : pointer WINDOW)     (* [u.reset( p );] *)
| op_release.                       (* [u.release();] *)

(** Runs the calls in order; collects what the [release()] calls returned. *)
Fixpoint run_ops {B : Type} `{Backend B} (ops : list owner_op) (u : WINDOW_PTR)
  : M B (list (pointer WINDOW) * WINDOW_PTR) :=
  match ops with
  | [] => ret ([], u)
  | op_reset p :: rest =>
      u' ← WindowPtr.reset p u;
      run_ops rest u'
  | op_release :: rest =>
      '(r, u') ← WindowPtr.release u;
      '(rs, u'') ← run_ops rest u';
      ret (r :: rs, u'')
  end.

Definition scoped {B : Type} `{Backend B} (p0 : pointer WINDOW) (ops : list owner_op)
  : M B (list (pointer WINDOW)) :=
  u ← WindowPtr.ctor p0;
  '(rs, u') ← run_ops ops u;
  WindowPtr.dtor u';;
  ret rs.

(** The pointers handed to the owner: at construction and by each [reset]. *)
Fixpoint resets (ops : list owner_op) : list (pointer WINDOW) :=
  match ops with
  | [] => []
  | op_reset p :: rest => p :: resets rest
  | op_release :: rest => resets rest
  end.

Definition acquired (p0 : pointer WINDOW) (ops : list owner_op)
  : list (pointer WINDOW) :=
  p0 :: resets ops.

(** The windows a recorded trace destroys, in order. *)
Definition destroyed (tr : list backend_call) : list (pointer WINDOW) :=
  omap (fun c => match c with
                 | call_delwin win => Some (Window.to_WINDOW_ptr win)
                 | _ => None
                 end) tr.

(** Number of occurrences of an address in a list of handles. *)
Fixpoint occurrences (h : pointer WINDOW) (l : list (pointer WINDOW)) : nat :=
  match l with
  | [] => 0%nat
  | p :: rest => ((if pointer_eqb h p then 1 else 0) + occurrences h rest)%nat
  end.

(** What the end of the ownership of [p] destroys when it ends as in
    [reset] or the destructor: nothing for [nullptr], else [p]. *)
Definition torn_down (p : pointer WINDOW) : list (pointer WINDOW) :=
  if is_null p then [] else [p].

(** *** [reset] on the owner in place

    [reset] changes the owner it is called on and calls the deleter.  With
    the owner made part of the state, the order of the two effects is part of
    the result: as the C++ standard has it ([unique.ptr.single.modifiers]),
    [reset( p )] assigns [p] to the stored pointer and then, with the old
    value [old_p] of the stored pointer, evaluates
    [if( old_p ) get_deleter()( old_p )].  The deleter runs in the state the
    assignment left. *)
Definition reset_in_place {B : Type}
  (deleter : pointer WINDOW -> M (unique_ptr * B) unit) (p : pointer WINDOW)
  : M (unique_ptr * B) unit :=
  fun ub =>
    let old_p := stored (fst ub) in
    let ub' := (mk_unique_ptr p, snd ub) in
    if is_null old_p then (tt, ub') else deleter old_p ub'.

(** A backend call made beside an owner it does not look at. *)
Definition beside {B : Type} (m : M B unit) : M (unique_ptr * B) unit :=
  fun ub => let (a, b') := m (snd ub) in (a, (fst ub, b')).

Definition Beside (B : Type) `{Backend B} : Backend (unique_ptr * B) := {|
  delwin win := beside (delwin win);
  wrefresh win := beside (wrefresh win);
  werase win := beside (werase win);
  mvwprintw win y x text := beside (mvwprintw win y x text);
  wprintw win text := beside (wprintw win text)
|}.

(** A backend double that records, with each call, the pointer the owner
    holds at the time of the call. *)
Definition watch (c : backend_call)
  : M (unique_ptr * list (pointer WINDOW * backend_call)) unit :=
  fun ul => (tt, (fst ul, snd ul ++ [(stored (fst ul), c)])).

Definition Watcher : Backend (unique_ptr * list (pointer WINDOW * backend_call)) := {|
  delwin win := watch (call_delwin win);
  wrefresh win := watch (call_wrefresh win);
  werase win := watch (call_werase win);
  mvwprintw win y x text := watch (call_mvwprintw win y x text);
  wprintw win text := watch (call_wprintw win text)
|}.

(** *** Several owners in a block

    Owners are variables of the block, named by numbers; the block's
    statements act on them by reference, so the same owner may appear twice
    in a statement.  A statement the compiler rejects yields [None]. *)

Inductive stmt : Type :=
| decl (x : nat) (p : pointer WINDOW)        (* [WINDOW_PTR x( p );] *)
| decl_move (y x : nat)                      (* [WINDOW_PTR y( std::move( x ) );] *)
| decl_copy (y x : nat)                      (* [WINDOW_PTR y( x );] *)
| assign_move (y x : nat)                    (* [y = std::move( x );] *)
| assign_copy (y x : nat)                    (* [y = x;] *)
| call_reset (x : nat) (p : pointer WINDOW)  (* [x.reset( p );] *)
| call_release (x : nat)                     (* [x.release();] *)
| end_of_scope (x : nat).                    (* [x] leaves its scope *)

Definition step {B : Type} `{Backend B} (st : stmt) (s : gmap nat WINDOW_PTR)
  : M B (option (gmap nat WINDOW_PTR)) :=
  match st with
  | decl x p =>
      match s !! x with
      | Some _ => ret None
      | None => u ← WindowPtr.ctor p; ret (Some (<[x:=u]> s))
      end
  | decl_move y x =>
      match s !! y, s !! x with
      | None, Some src =>
          '(dst, src') ← WindowPtr.move_ctor src;
          ret (Some (<[y:=dst]> (<[x:=src']> s)))
      | _, _ => ret None
      end
  | decl_copy y x =>
      (* [unique_ptr( const unique_ptr & ) = delete;] *)
      ret None
  | assign_move y x =>
      (* [unique_ptr &operator=( unique_ptr &&u )] is [reset( u.release() )] *)
      match s !! x with
      | Some src =>
          '(p, src') ← WindowPtr.release src;
          let s1 := <[x:=src']> s in
          match s1 !! y with
          | Some dst => dst' ← WindowPtr.reset p dst; ret (Some (<[y:=dst']> s1))
          | None => ret None
          end
      | None => ret None
      end
  | assign_copy y x =>
      (* [unique_ptr &operator=( const unique_ptr & ) = delete;] *)
      ret None
  | call_reset x p =>
      match s !! x with
      | Some u => u' ← WindowPtr.reset p u; ret (Some (<[x:=u']> s))
      | None => ret None
      end
  | call_release x =>
      match s !! x with
      | Some u => '(_, u') ← WindowPtr.release u; ret (Some (<[x:=u']> s))
      | None => ret None
      end
  | end_of_scope x =>
      match s !! x with
      | Some u => WindowPtr.dtor u;; ret (Some (delete x s))
      | None => ret None
      end
  end.

Fixpoint run {B : Type} `{Backend B} (prog : list stmt) (s : gmap nat WINDOW_PTR)
  : M B (option (gmap nat WINDOW_PTR)) :=
  match prog with
  | [] => ret (Some s)
  | st :: rest =>
      r ← step st s;
      match r with
      | Some s' => run rest s'
      | None => ret None
      end
  end.

(** No two owners of the block hold the same non-null pointer. *)
Definition exclusive (s : gmap nat WINDOW_PTR) : Prop :=
  forall x y u v,
    s !! x = Some u -> s !! y = Some v ->
    stored u = stored v -> stored u <> nullptr -> x = y.

(** Whether some owner of the block holds [p]. *)
Definition held (p : pointer WINDOW) (s : gmap nat WINDOW_PTR) : bool :=
  existsb (fun xv : nat * WINDOW_PTR => pointer_eqb (stored (snd xv)) p)
          (map_to_list s).

(** A raw pointer given to an owner is null or held by no owner of the block. *)
Definition raw_fresh (st : stmt) (s : gmap nat WINDOW_PTR) : bool :=
  match st with
  | decl _ p | call_reset _ p => is_null p || negb (held p s)
  | _ => true
  end.

Fixpoint raw_fresh_prog {B : Type} `{Backend B} (prog : list stmt)
  (s : gmap nat WINDOW_PTR) (b : B) : bool :=
  match prog with
  | [] => true
  | st :: rest =>
      raw_fresh st s &&
      match step st s b with
      | (Some s', b') => raw_fresh_prog rest s' b'
      | (None, _) => true
      end
  end.

(** Statements that hand no raw non-null pointer to an owner: moves,
    [release()], [reset()] to null, and the end of a scope. *)
Definition hands_no_raw (st : stmt) : bool :=
  match st with
  | decl _ p | call_reset _ p => is_null p
  | _ => true
  end.

(** ** Formatted text

    [string_format] comes from [string_formatter.h], which the header only
    includes: it is a parameter here, and [Args] stands for the type of the
    argument pack [Args &&... args]. *)

Section formatted_text.

Context {B : Type} `{Backend B}.
Context {Args : Type} (string_format : string -> Args -> string).

(** [template<typename ...Args> inline void mvwprintw( const window &win,
      const int y, const int x, const char *const fmt, Args &&... args )
    { return mvwprintw( win, y, x, string_format( fmt, std::forward<Args>( args )... ) ); }] *)
Definition mvwprintw_fmt (win : window) (y x : Z) (fmt : string) (args : Args)
  : M B unit :=
  mvwprintw win y x (string_format fmt args).

(** [template<typename ...Args> inline void wprintw( const window &win,
      const char *const fmt, Args &&... args )
    { return wprintw( win, string_format( fmt, std::forward<Args>( args )... ) ); }] *)
Definition wprintw_fmt (win : window) (fmt : string) (args : Args) : M B unit :=
  wprintw win (string_format fmt args).

(** The specification's wording: render the arguments into a plain string
    with the formatter first, then forward to the plain-string form. *)
Definition mvwprintw_fmt_spec (win : window) (y x : Z) (fmt : string) (args : Args)
  : M B unit :=
  text ← ret (string_format fmt args);
  mvwprintw win y x text.

Definition wprintw_fmt_spec (win : window) (fmt : string) (args : Args) : M B unit :=
  text ← ret (string_format fmt args);
  wprintw win text.

End formatted_text.

(** ** [void init_interface()] *)

(** How a call ends: it returns a value, or an exception leaves it. *)
Inductive completion (A : Type) : Type :=
| returned (a : A)
| thrown (what : string).
Arguments returned {A} _.
Arguments thrown {A} _.

(** How the process ends. *)
Inductive process_end (B : Type) : Type :=
| finished (b : B)
| aborted (shown : string).
Arguments finished {B} _.
Arguments aborted {B} _.

(** Modelled from the spec: the body of [init_interface] belongs to the
    backend and is not in the header, which declares [void init_interface()]
    and documents "@throws std::exception upon any errors. The caller should
    display / log it and abort the program. Only continue the program when
    this returned normally."  [establish] is the backend's attempt to set up
    a working display in the environment [e] the process runs in: it yields
    the initial backend state or the reason of the failure.  A failure is
    signalled by the exception; the function returns [void], and a call that
    threw leaves no interface to continue with. *)
Definition init_interface {E B : Type} (establish : E -> string + B) (e : E)
  : completion (unit * B) :=
  match establish e with
  | inr b => returned (tt, b)
  | inl what => thrown what
  end.

(** Modelled from the spec: the caller of [init_interface], which is not
    in the header either.  As documented there, it displays the error and
    aborts when the call throws, and runs the rest of the program only when
    the call returned normally. *)
Definition start_program {E B : Type} (establish : E -> string + B)
  (program : M B unit) (e : E) : process_end B :=
  match init_interface establish e with
  | returned (_, b) => finished (snd (program b))
  | thrown what => aborted what
  end.

(** ** Observations on a block of owners *)

(** The window a recorded call is made on. *)
Definition call_window (c : backend_call) : window :=
  match c with
  | call_delwin win | call_wrefresh win | call_werase win => win
  | call_mvwprintw win _ _ _ => win
  | call_wprintw win _ => win
  end.

(** Number of owners of the block that hold [h]. *)
Definition holders (h : pointer WINDOW) (s : gmap nat WINDOW_PTR) : nat :=
  occurrences h (map (fun xv : nat * WINDOW_PTR => stored (snd xv)) (map_to_list s)).

(** The raw pointer a statement hands to an owner, if it hands one. *)
Definition adopted_by (st : stmt) : list (pointer WINDOW) :=
  match st with
  | decl _ p | call_reset _ p => [p]
  | _ => []
  end.

Definition adopted (prog : list stmt) : list (pointer WINDOW) :=
  flat_map adopted_by prog.

(** What the [release()] call of a statement returns to its caller. *)
Definition released_by (st : stmt) (s : gmap nat WINDOW_PTR) : list (pointer WINDOW) :=
  match st with
  | call_release x =>
      match s !! x with
      | Some u => [WindowPtr.get u]
      | None => []
      end
  | _ => []
  end.

(** What the [release()] calls of a block return, in order. *)
Fixpoint released {B : Type} `{Backend B} (prog : list stmt)
  (s : gmap nat WINDOW_PTR) (b : B) : list (pointer WINDOW) :=
  match prog with
  | [] => []
  | st :: rest =>
      released_by st s ++
      match step st s b with
      | (Some s', b') => released rest s' b'
      | (None, _) => []
      end
  end.

(** * Properties *)

(** ** Pointers *)

Lemma pointer_eq {T : Type} (p q : pointer T) : addr p = addr q -> p = q.
Proof. destruct p, q; simpl; congruence. Qed.

Lemma pointer_eqb_eq {T : Type} (p q : pointer T) :
  pointer_eqb p q = true <-> p = q.
Proof.
  unfold pointer_eqb. rewrite N.eqb_eq. split.
  - apply pointer_eq.
  - intros ->. reflexivity.
Qed.

Lemma pointer_eqb_refl {T : Type} (p : pointer T) : pointer_eqb p p = true.
Proof. apply pointer_eqb_eq. reflexivity. Qed.

Lemma is_null_true {T : Type} (p : pointer T) : is_null p = true <-> p = nullptr.
Proof. apply (pointer_eqb_eq p nullptr). Qed.

Lemma is_null_false {T : Type} (p : pointer T) : is_null p = false <-> p <> nullptr.
Proof.
  rewrite <- is_null_true. destruct (is_null p); split; congruence.
Qed.

Lemma static_cast_back {T U : Type} (p : pointer T) :
  static_cast (U := T) (static_cast (U := U) p) = p.
Proof. destruct p. reflexivity. Qed.

(** ** [window] *)

(** C4: a [window] built from a pointer [p] of any pointee type gives [p]
    back through [get<T>()]; the conversion to [WINDOW *] gives the same
    address (and [p] itself when [p] is a [WINDOW *]); two [window]s built
    from pointers compare equal exactly when the pointers are equal, so two
    built from the same handle, or a [window] and its copy, compare equal. *)
Theorem window_preserves_handle :
  (forall (T : Type) (p : pointer T), Window.get (T := T) (Window.ctor p) = p)
  /\ (forall (T : Type) (p : pointer T),
        addr (Window.to_WINDOW_ptr (Window.ctor p)) = addr p)
  /\ (forall p : pointer WINDOW, Window.to_WINDOW_ptr (Window.ctor p) = p)
  /\ (forall (T : Type) (p q : pointer T),
        Window.eqb (Window.ctor p) (Window.ctor q) = true <-> p = q)
  /\ (forall (T : Type) (p : pointer T),
        Window.eqb (Window.ctor p) (Window.ctor p) = true)
  /\ (forall w : window, Window.eqb (Window.copy w) w = true).
Proof.
  repeat split.
  - intros T p. apply static_cast_back.
  - intros p. apply (static_cast_back (U := WINDOW)).
  - unfold Window.eqb. rewrite pointer_eqb_eq. intros E.
    apply pointer_eq. apply (f_equal addr) in E. exact E.
  - intros ->. apply pointer_eqb_refl.
  - intros T p. apply pointer_eqb_refl.
  - intros w. apply pointer_eqb_refl.
Qed.

(** C5: a default-constructed [window] holds the null handle: [get()], for
    any requested pointee type, and the conversion to [WINDOW *] return
    [nullptr]. *)
Theorem window_default_is_null :
  native_window Window.ctor_default = nullptr
  /\ (forall T : Type, Window.get (T := T) Window.ctor_default = nullptr)
  /\ Window.to_WINDOW_ptr Window.ctor_default = nullptr
  /\ Window.is_null Window.ctor_default = true.
Proof. repeat split. Qed.

Lemma run_window_op_state {B : Type} (op : window_op) (b : B) :
  snd (run_window_op op b) = b.
Proof. destruct op; reflexivity. Qed.

Lemma run_window_ops_state {B : Type} (ops : list window_op) (b : B) :
  snd (run_window_ops ops b) = b.
Proof.
  induction ops as [|op ops IH]; [reflexivity|].
  simpl. unfold mbind, M_bind, bind.
  pose proof (run_window_op_state op b) as E1.
  destruct (run_window_op op b) as [r b1]. simpl in E1. subst b1.
  destruct (run_window_ops ops b) as [rs b2]. simpl in IH. subst b2.
  reflexivity.
Qed.

(** C6: constructing, copying, reading, converting and destroying [window]
    values, in any number and order, leaves the state of every backend as it
    was; the destructor returns without a call, so the recording backend
    sees no [delwin] (nor anything else) from it. *)
Theorem window_ops_leave_backend_alone :
  (forall (B : Type) (ops : list window_op) (b : B),
      snd (run_window_ops ops b) = b)
  /\ (forall (ops : list window_op) (tr : list backend_call),
        destroyed (snd (run_window_ops ops tr)) = destroyed tr)
  /\ (forall (B : Type) (w : window) (b : B),
        run_window_op (window_destroy w) b = (nothing, b)).
Proof.
  split; [|split].
  - intros B ops b. apply run_window_ops_state.
  - intros ops tr. rewrite run_window_ops_state. reflexivity.
  - reflexivity.
Qed.

(** ** [base_color] *)

(** C9: [base_color] has exactly the eight enumerators black, red, green,
    yellow, blue, magenta, cyan, white, declared in that order, with the
    values 0, 1, ..., 7 (black is 0, white is 7); the values are pairwise
    different and fit the underlying type [short]. *)
Theorem base_color_enumeration :
  (forall c : base_color, c ∈ base_color_enumerators)
  /\ length base_color_enumerators = 8%nat
  /\ base_color_value <$> base_color_enumerators = seqZ 0 8
  /\ base_color_value black = 0 /\ base_color_value white = 7
  /\ NoDup (base_color_value <$> base_color_enumerators)
  /\ (forall c : base_color, short_min <= base_color_value c <= short_max).
Proof.
  repeat split.
  - intros c. unfold base_color_enumerators.
    destruct c; repeat (first [apply list_elem_of_here | apply list_elem_of_further]).
  - apply NoDup_ListNoDup.
    repeat (constructor; [simpl; intros Hin; intuition discriminate|]).
    constructor.
  - destruct c; vm_compute; discriminate.
  - destruct c; vm_compute; discriminate.
Qed.

(** ** Formatted text *)

(** C8: for every backend, formatter, window, position, format string and
    argument pack, the template overload of [mvwprintw] is the plain-string
    [mvwprintw] applied to [string_format( fmt, args... )], and likewise for
    [wprintw]; both agree with the specification's "render first, then
    forward". *)
Theorem formatted_overloads_forward
  (B : Type) (backend : Backend B) (Args : Type)
  (string_format : string -> Args -> string)
  (win : window) (y x : Z) (fmt : string) (args : Args) :
  mvwprintw_fmt string_format win y x fmt args
    = mvwprintw win y x (string_format fmt args)
  /\ wprintw_fmt string_format win fmt args
    = wprintw win (string_format fmt args)
  /\ mvwprintw_fmt string_format win y x fmt args
    = mvwprintw_fmt_spec string_format win y x fmt args
  /\ wprintw_fmt string_format win fmt args
    = wprintw_fmt_spec string_format win fmt args.
Proof. repeat split. Qed.

Lemma formatted_overloads_recorded {Args : Type}
  (string_format : string -> Args -> string)
  (win : window) (y x : Z) (fmt : string) (args : Args) (tr : list backend_call) :
  mvwprintw_fmt string_format win y x fmt args tr
    = (tt, tr ++ [call_mvwprintw win y x (string_format fmt args)])
  /\ wprintw_fmt string_format win fmt args tr
    = (tt, tr ++ [call_wprintw win (string_format fmt args)]).
Proof. split; reflexivity. Qed.

(** ** [init_interface] *)

(** C10: when the display cannot be set up, [init_interface] ends by
    throwing, with the reason, and returns nothing; when it can, the call
    returns normally (its value is the [void] one) with the interface set up.
    A caller that follows the documented protocol aborts with the error shown
    in the first case, without running any of the program, and runs the
    program on the interface only in the second: a program that ran did so
    after a normal return. *)
Theorem init_interface_raises_on_failure
  (E B : Type) (establish : E -> string + B) (program : M B unit) (e : E) :
  (forall what : string, establish e = inl what ->
      init_interface establish e = thrown what
      /\ start_program establish program e = aborted what)
  /\ (forall b : B, establish e = inr b ->
      init_interface establish e = returned (tt, b)
      /\ start_program establish program e = finished (snd (program b)))
  /\ (forall b' : B, start_program establish program e = finished b' ->
      exists b, init_interface establish e = returned (tt, b)
                /\ b' = snd (program b)).
Proof.
  unfold start_program, init_interface.
  destruct (establish e) as [what|b]; repeat split; try congruence.
  intros b' Efin. exists b. split; congruence.
Qed.

(** A terminal without a display: setting up fails with the reason given;
    with a display the backend starts with nothing recorded. *)
Lemma init_interface_raises_on_failure_witness :
  let establish : bool -> string + list backend_call :=
    fun has_display => if has_display then inr [] else inl "no display"%string in
  init_interface establish false = thrown "no display"%string
  /\ start_program establish (werase Window.ctor_default) false
     = aborted "no display"%string.
Proof.
  intros establish.
  apply (proj1 (init_interface_raises_on_failure
                  bool (list backend_call) establish
                  (werase Window.ctor_default) false)).
  reflexivity.
Defined.

(** ** [WINDOW_PTR]: one owner *)

Ltac unfold_owner :=
  unfold WindowPtr.dtor, WindowPtr.reset, WindowPtr.release, WindowPtr.ctor,
    WindowPtr.move_ctor, WindowPtr.get,
    UniquePtr.dtor, UniquePtr.reset, UniquePtr.release, UniquePtr.ctor,
    UniquePtr.move_ctor, UniquePtr.get in *.

Ltac unfold_monad :=
  unfold mbind, M_bind, bind, mret, M_ret, ret in *.

(** On any backend the deleter is the three calls in sequence. *)
Lemma delwin_functor_run {B : Type} `{Backend B} (w : pointer WINDOW) (b : B) :
  snd (delwin_functor w b)
  = snd (delwin (Window.ctor w)
           (snd (wrefresh (Window.ctor w) (snd (werase (Window.ctor w) b))))).
Proof.
  unfold delwin_functor. unfold_monad.
  destruct (werase (Window.ctor w) b) as [[] b1]. simpl.
  destruct (wrefresh (Window.ctor w) b1) as [[] b2]. reflexivity.
Qed.

Lemma delwin_functor_recorded (w : pointer WINDOW) (tr : list backend_call) :
  delwin_functor w tr = (tt, tr ++ teardown_calls w).
Proof.
  unfold delwin_functor, teardown_calls. unfold_monad. simpl. unfold record.
  rewrite <- !app_assoc. reflexivity.
Qed.

Lemma dtor_recorded (u : WINDOW_PTR) (tr : list backend_call) :
  WindowPtr.dtor u tr
  = (tt, tr ++ if is_null (stored u) then [] else teardown_calls (stored u)).
Proof.
  unfold_owner. destruct (is_null (stored u)).
  - unfold ret. rewrite app_nil_r. reflexivity.
  - apply delwin_functor_recorded.
Qed.

Lemma reset_recorded (p : pointer WINDOW) (u : WINDOW_PTR) (tr : list backend_call) :
  WindowPtr.reset p u tr
  = (mk_unique_ptr p,
     tr ++ if is_null (stored u) then [] else teardown_calls (stored u)).
Proof.
  unfold_owner. simpl. destruct (is_null (stored u)).
  - unfold ret. rewrite app_nil_r. reflexivity.
  - unfold_monad. rewrite delwin_functor_recorded. reflexivity.
Qed.

Lemma destroyed_app (tr1 tr2 : list backend_call) :
  destroyed (tr1 ++ tr2) = destroyed tr1 ++ destroyed tr2.
Proof. unfold destroyed. apply omap_app. Qed.

Lemma destroyed_teardown (w : pointer WINDOW) : destroyed (teardown_calls w) = [w].
Proof. unfold destroyed, teardown_calls. simpl. destruct w. reflexivity. Qed.

(** C1: destroying an owner that holds a non-null handle makes, on the
    recording backend, exactly the calls [werase], [wrefresh], [delwin] on
    that window, in this order and once each, after whatever was recorded
    before, so that this handle is the one window destroyed; the same holds
    for a block that declares the owner and ends, and on any backend the
    destructor leaves the state that [werase], then [wrefresh], then
    [delwin] leave. *)
Theorem WINDOW_PTR_teardown_at_scope_exit
  (u : WINDOW_PTR) (tr : list backend_call) :
  WindowPtr.get u <> nullptr ->
  WindowPtr.dtor u tr
  = (tt, tr ++ [call_werase (Window.ctor (WindowPtr.get u));
                call_wrefresh (Window.ctor (WindowPtr.get u));
                call_delwin (Window.ctor (WindowPtr.get u))])
  /\ destroyed (snd (WindowPtr.dtor u tr)) = destroyed tr ++ [WindowPtr.get u]
  /\ scoped (WindowPtr.get u) [] tr
     = ([], tr ++ [call_werase (Window.ctor (WindowPtr.get u));
                   call_wrefresh (Window.ctor (WindowPtr.get u));
                   call_delwin (Window.ctor (WindowPtr.get u))])
  /\ (forall (B : Type) (backend : Backend B) (b : B),
        snd (WindowPtr.dtor u b)
        = snd (delwin (Window.ctor (WindowPtr.get u))
                 (snd (wrefresh (Window.ctor (WindowPtr.get u))
                         (snd (werase (Window.ctor (WindowPtr.get u)) b)))))).
Proof.
  intros Hnn. apply is_null_false in Hnn.
  assert (E : WindowPtr.dtor u tr
              = (tt, tr ++ teardown_calls (WindowPtr.get u))).
  { rewrite dtor_recorded. unfold WindowPtr.get, UniquePtr.get in *.
    rewrite Hnn. reflexivity. }
  split; [exact E|]. split; [|split].
  - rewrite E. simpl. rewrite destroyed_app, destroyed_teardown. reflexivity.
  - unfold scoped. unfold_monad. unfold WindowPtr.ctor, UniquePtr.ctor, ret.
    simpl. destruct u as [p]. simpl in *. rewrite E. reflexivity.
  - intros B backend b. unfold WindowPtr.dtor, UniquePtr.dtor.
    unfold WindowPtr.get, UniquePtr.get in *. rewrite Hnn.
    apply delwin_functor_run.
Qed.

Lemma WINDOW_PTR_teardown_at_scope_exit_witness :
  let w := Window.ctor (Ptr (T := WINDOW) 42%N) in
  WindowPtr.dtor (mk_unique_ptr (Ptr 42%N)) []
  = (tt, [call_werase w; call_wrefresh w; call_delwin w]).
Proof.
  apply (WINDOW_PTR_teardown_at_scope_exit (mk_unique_ptr (Ptr 42%N)) []).
  simpl. discriminate.
Defined.

Lemma run_ops_then_release {B : Type} `{Backend B} (ops : list owner_op)
  (u : WINDOW_PTR) (b : B) :
  run_ops (ops ++ [op_release]) u b
  = let '((rs, u'), b') := run_ops ops u b in
    ((rs ++ [stored u'], mk_unique_ptr nullptr), b').
Proof.
  revert u b. induction ops as [|[p|] ops IH]; intros u b.
  - reflexivity.
  - simpl. unfold_monad.
    destruct (WindowPtr.reset p u b) as [u1 b1]. apply IH.
  - simpl. unfold_monad. unfold WindowPtr.release, UniquePtr.release, ret.
    rewrite IH.
    destruct (run_ops ops (mk_unique_ptr nullptr) b) as [[rs u1] b1]. reflexivity.
Qed.

(** C2: on every backend, [release()] returns the handle the owner stores,
    leaves the owner storing [nullptr] and the backend untouched; destroying
    an owner that stores [nullptr] makes no call.  So a block that ends on
    [release()] returns, last, the handle the owner held then, and leaves at
    its closing brace the backend state it had before the [release()]. *)
Theorem WINDOW_PTR_release_detaches
  (B : Type) (backend : Backend B) (u : WINDOW_PTR) (b : B) :
  WindowPtr.release u b = ((stored u, mk_unique_ptr nullptr), b)
  /\ WindowPtr.dtor (mk_unique_ptr nullptr) b = (tt, b)
  /\ scoped (stored u) [op_release] b = ([stored u], b)
  /\ (forall (p0 : pointer WINDOW) (ops : list owner_op),
        scoped p0 (ops ++ [op_release]) b
        = let '((rs, u'), b') := run_ops ops (mk_unique_ptr p0) b in
          (rs ++ [stored u'], b')).
Proof.
  split; [|split; [|split]].
  - reflexivity.
  - reflexivity.
  - reflexivity.
  - intros p0 ops. unfold scoped. unfold_monad. unfold WindowPtr.ctor, UniquePtr.ctor, ret.
    rewrite run_ops_then_release.
    destruct (run_ops ops (mk_unique_ptr p0) b) as [[rs u1] b1]. reflexivity.
Qed.

(** An owner of the window at 42: [release()] returns 42 and nothing is
    recorded, neither then nor at the end of the block; after a [reset] to 5
    the [release()] returns 5 and only the teardown of 42 is recorded. *)
Lemma WINDOW_PTR_release_detaches_witness :
  WindowPtr.release (mk_unique_ptr (Ptr 42%N)) ([] : list backend_call)
  = ((Ptr 42%N, mk_unique_ptr nullptr), [])
  /\ scoped (Ptr 42%N) [op_release] ([] : list backend_call) = ([Ptr 42%N], [])
  /\ scoped (Ptr 42%N) ([op_reset (Ptr 5%N)] ++ [op_release]) []
     = ([Ptr 5%N], teardown_calls (Ptr 42%N)).
Proof.
  pose proof (WINDOW_PTR_release_detaches (list backend_call) Recorder
                (mk_unique_ptr (Ptr 42%N)) []) as (Hrel & _ & Hblock & Hafter).
  split; [exact Hrel|]. split; [exact Hblock|].
  rewrite (Hafter (Ptr 42%N) [op_reset (Ptr 5%N)]). reflexivity.
Defined.

Lemma occurrences_app (h : pointer WINDOW) (l1 l2 : list (pointer WINDOW)) :
  occurrences h (l1 ++ l2) = (occurrences h l1 + occurrences h l2)%nat.
Proof. induction l1 as [|p l1 IH]; simpl; [reflexivity | rewrite IH; lia]. Qed.

Lemma destroyed_teardowns (ds : list (pointer WINDOW)) :
  destroyed (flat_map teardown_calls ds) = ds.
Proof.
  induction ds as [|d ds IH]; [reflexivity|].
  change (flat_map teardown_calls (d :: ds))
    with (teardown_calls d ++ flat_map teardown_calls ds).
  rewrite destroyed_app, destroyed_teardown, IH. reflexivity.
Qed.

Lemma torn_down_calls (p : pointer WINDOW) :
  (if is_null p then [] else teardown_calls p) = flat_map teardown_calls (torn_down p).
Proof. unfold torn_down. destruct (is_null p); reflexivity. Qed.

Lemma occurrences_torn_down (h p : pointer WINDOW) :
  h <> nullptr -> occurrences h (torn_down p) = occurrences h [p].
Proof.
  intros Hh. unfold torn_down. destruct (is_null p) eqn:E; [|reflexivity].
  apply is_null_true in E. subst p. simpl.
  destruct (pointer_eqb h nullptr) eqn:E; [|reflexivity].
  apply pointer_eqb_eq in E. contradiction.
Qed.

Lemma occurrences_acquired_reset (h p0 p : pointer WINDOW) (ops : list owner_op) :
  occurrences h (acquired p0 (op_reset p :: ops))
  = (occurrences h [p0] + occurrences h (acquired p ops))%nat.
Proof. unfold acquired. simpl. lia. Qed.

Lemma occurrences_acquired_release (h p0 : pointer WINDOW) (ops : list owner_op) :
  h <> nullptr ->
  occurrences h (acquired p0 (op_release :: ops))
  = (occurrences h [p0] + occurrences h (acquired nullptr ops))%nat.
Proof.
  intros Hh. unfold acquired. simpl.
  destruct (pointer_eqb h nullptr) eqn:E; [|lia].
  apply pointer_eqb_eq in E. contradiction.
Qed.

Lemma run_ops_recorded (ops : list owner_op) :
  forall (u : WINDOW_PTR) (tr : list backend_call),
  exists (rs ds : list (pointer WINDOW)) (u' : WINDOW_PTR),
    run_ops ops u tr = ((rs, u'), tr ++ flat_map teardown_calls ds)
    /\ forall h : pointer WINDOW, h <> nullptr ->
         (occurrences h ds + occurrences h rs + occurrences h [stored u']
          = occurrences h (acquired (stored u) ops))%nat.
Proof.
  induction ops as [|[p|] ops IH]; intros u tr.
  - exists [], [], u. split.
    + simpl. rewrite app_nil_r. reflexivity.
    + intros h _. reflexivity.
  - destruct (IH (mk_unique_ptr p)
                (tr ++ flat_map teardown_calls (torn_down (stored u))))
      as (rs & ds & u' & Erun & Hcount).
    exists rs, (torn_down (stored u) ++ ds), u'. split.
    + simpl. unfold_monad. rewrite reset_recorded, torn_down_calls, Erun.
      rewrite flat_map_app, app_assoc. reflexivity.
    + intros h Hh. specialize (Hcount h Hh).
      rewrite occurrences_app, (occurrences_torn_down h _ Hh).
      rewrite occurrences_acquired_reset. simpl stored in Hcount. lia.
  - destruct (IH (mk_unique_ptr nullptr) tr) as (rs & ds & u' & Erun & Hcount).
    exists (stored u :: rs), ds, u'. split.
    + simpl. unfold_monad. unfold WindowPtr.release, UniquePtr.release, ret.
      rewrite Erun. reflexivity.
    + intros h Hh. specialize (Hcount h Hh).
      rewrite (occurrences_acquired_release h _ _ Hh).
      simpl stored in Hcount. change (stored u :: rs) with ([stored u] ++ rs).
      rewrite occurrences_app. lia.
Qed.

Lemma scoped_recorded (p0 : pointer WINDOW) (ops : list owner_op)
  (tr : list backend_call) :
  exists (released : list (pointer WINDOW)) (calls : list backend_call),
    scoped p0 ops tr = (released, tr ++ calls)
    /\ calls = flat_map teardown_calls (destroyed calls)
    /\ forall h : pointer WINDOW, h <> nullptr ->
         (occurrences h (destroyed calls) + occurrences h released
          = occurrences h (acquired p0 ops))%nat.
Proof.
  destruct (run_ops_recorded ops (mk_unique_ptr p0) tr)
    as (rs & ds & u' & Erun & Hcount).
  exists rs, (flat_map teardown_calls (ds ++ torn_down (stored u'))).
  rewrite destroyed_teardowns. split; [|split].
  - unfold scoped. unfold_monad. unfold WindowPtr.ctor, UniquePtr.ctor, ret.
    rewrite Erun, dtor_recorded, torn_down_calls.
    rewrite flat_map_app, app_assoc. reflexivity.
  - reflexivity.
  - intros h Hh. specialize (Hcount h Hh). simpl stored in Hcount.
    rewrite occurrences_app, (occurrences_torn_down h _ Hh). lia.
Qed.

Lemma reset_in_place_beside {B : Type} `{Backend B}
  (p : pointer WINDOW) (u : WINDOW_PTR) (b : B) :
  reset_in_place (@delwin_functor _ (Beside B)) p (u, b)
  = (tt, WindowPtr.reset p u b).
Proof.
  unfold reset_in_place, WindowPtr.reset, UniquePtr.reset, UniquePtr.get. simpl.
  destruct (is_null (stored u)); [reflexivity|].
  unfold delwin_functor. unfold_monad. simpl. unfold beside. simpl.
  destruct (werase (Window.ctor (stored u)) b) as [[] b1]. simpl.
  destruct (wrefresh (Window.ctor (stored u)) b1) as [[] b2]. simpl.
  destruct (delwin (Window.ctor (stored u)) b2) as [[] b3]. reflexivity.
Qed.

Lemma reset_in_place_watched (p : pointer WINDOW) (u : WINDOW_PTR)
  (log : list (pointer WINDOW * backend_call)) :
  reset_in_place (@delwin_functor _ Watcher) p (u, log)
  = (tt, (mk_unique_ptr p,
          log ++ map (fun c => (p, c))
                     (if is_null (stored u) then [] else teardown_calls (stored u)))).
Proof.
  unfold reset_in_place. simpl. destruct (is_null (stored u)).
  - simpl. rewrite app_nil_r. reflexivity.
  - unfold delwin_functor. unfold_monad. simpl. unfold watch. simpl.
    rewrite <- !app_assoc. reflexivity.
Qed.

(** C3, amended: [reset( p )] first stores [p] in the owner and then makes
    the three teardown calls on the window held before (none if the owner
    held [nullptr]): a backend that looks at the owner sees it hold [p]
    during each of these calls; for a backend that does not look, this is
    the [reset] used everywhere else, which on the recording backend records
    the teardown of the old window and returns the owner holding [p], the
    teardown of the old window coming before that of the new one.  For any
    sequence of [reset] and [release] calls on an owner followed by the end of
    its scope, the calls recorded are whole teardowns, and for every non-null
    handle the number of its teardowns plus the number of times [release()]
    returned it is the number of times it was handed to the owner (at
    construction or by [reset]): each ownership ends once, in a teardown or
    in a [release()].  So a handle handed to the owner once is torn down at
    most once, at a [reset] or at the end of the scope and not at both, and
    exactly once unless it was released; a handle handed to it again, as by
    [reset( get() )], is torn down once for each time. *)
Theorem WINDOW_PTR_teardown_once_per_ownership :
  (forall (p : pointer WINDOW) (u : WINDOW_PTR)
          (log : list (pointer WINDOW * backend_call)),
      reset_in_place (@delwin_functor _ Watcher) p (u, log)
      = (tt, (mk_unique_ptr p,
              log ++ map (fun c => (p, c))
                         (if is_null (stored u) then []
                          else teardown_calls (stored u)))))
  /\ (forall (B : Type) (backend : Backend B)
             (p : pointer WINDOW) (u : WINDOW_PTR) (b : B),
        reset_in_place (@delwin_functor _ (Beside B)) p (u, b)
        = (tt, WindowPtr.reset p u b))
  /\ (forall (p : pointer WINDOW) (u : WINDOW_PTR) (tr : list backend_call),
        WindowPtr.reset p u tr
        = (mk_unique_ptr p,
           tr ++ if is_null (stored u) then []
                 else teardown_calls (stored u)))
  /\ (forall (p0 p : pointer WINDOW) (tr : list backend_call),
        is_null p0 = false -> is_null p = false ->
        scoped p0 [op_reset p] tr
        = ([], tr ++ teardown_calls p0 ++ teardown_calls p))
  /\ (forall (p0 : pointer WINDOW) (ops : list owner_op) (tr : list backend_call),
        exists (released : list (pointer WINDOW)) (calls : list backend_call),
          scoped p0 ops tr = (released, tr ++ calls)
          /\ calls = flat_map teardown_calls (destroyed calls)
          /\ (forall h : pointer WINDOW, h <> nullptr ->
                (occurrences h (destroyed calls) + occurrences h released
                 = occurrences h (acquired p0 ops))%nat)
          /\ (forall h : pointer WINDOW, h <> nullptr ->
                occurrences h (acquired p0 ops) = 1%nat ->
                (occurrences h (destroyed calls) <= 1)%nat
                /\ (occurrences h (destroyed calls) = 1%nat
                    <-> occurrences h released = 0%nat))).
Proof.
  split; [|split; [|split; [|split]]].
  - apply reset_in_place_watched.
  - intros B backend p u b. apply reset_in_place_beside.
  - intros p u tr. apply reset_recorded.
  - intros p0 p tr H0 Hp. unfold scoped. unfold_monad.
    unfold WindowPtr.ctor, UniquePtr.ctor, ret. simpl. unfold_monad.
    rewrite reset_recorded, dtor_recorded. simpl. rewrite H0, Hp.
    rewrite <- app_assoc. reflexivity.
  - intros p0 ops tr.
    destruct (scoped_recorded p0 ops tr) as (released & calls & E & Hwhole & Hcount).
    exists released, calls. repeat split; try assumption.
    + specialize (Hcount h H). lia.
    + specialize (Hcount h H). lia.
    + specialize (Hcount h H). lia.
Qed.

Lemma WINDOW_PTR_teardown_once_per_ownership_witness :
  let p0 : pointer WINDOW := Ptr 3%N in
  let ops := [op_reset (Ptr 5%N); op_release; op_reset (Ptr 8%N)] in
  let calls := teardown_calls (Ptr 3%N) ++ teardown_calls (Ptr 8%N) in
  scoped p0 ops [] = ([Ptr 5%N], calls)
  /\ occurrences (Ptr 3%N) (destroyed calls) = 1%nat
  /\ occurrences (Ptr 5%N) (destroyed calls) = 0%nat.
Proof.
  intros p0 ops calls.
  assert (Escoped : scoped p0 ops [] = ([Ptr 5%N], calls)).
  { vm_compute. reflexivity. }
  destruct (proj2 (proj2 (proj2 (proj2 WINDOW_PTR_teardown_once_per_ownership)))
              p0 ops [])
    as (released & calls' & E & _ & Hcount & Honce).
  rewrite Escoped in E. simpl in E. injection E as Er Ec. subst released calls'.
  split; [exact Escoped|]. split.
  - apply (Honce (Ptr 3%N)); [discriminate | reflexivity | reflexivity].
  - assert (H5 : Ptr (T := WINDOW) 5%N <> nullptr) by discriminate.
    specialize (Hcount (Ptr 5%N) H5).
    change (occurrences (Ptr 5%N) [Ptr 5%N]) with 1%nat in Hcount.
    change (occurrences (Ptr 5%N) (acquired p0 ops)) with 1%nat in Hcount.
    lia.
Defined.

(** C3 as first stated fails twice.  An owner of the window at 7 is reset to
    the window at 9: during all three teardown calls on 7 the owner already
    holds 9, so the teardown does not come before the owner takes the new
    handle.  And an owner of 7 that is reset to the handle it holds,
    [u.reset( u.get() )], tears 7 down at the [reset] and again at the end
    of the scope: the handle was owned, was never released, and its teardown
    ran twice, not once. *)
Lemma WINDOW_PTR_teardown_once_per_ownership_counterexample :
  reset_in_place (@delwin_functor _ Watcher) (Ptr 9%N) (mk_unique_ptr (Ptr 7%N), [])
  = (tt, (mk_unique_ptr (Ptr 9%N),
          [(Ptr 9%N, call_werase (Window.ctor (Ptr (T := WINDOW) 7%N)));
           (Ptr 9%N, call_wrefresh (Window.ctor (Ptr (T := WINDOW) 7%N)));
           (Ptr 9%N, call_delwin (Window.ctor (Ptr (T := WINDOW) 7%N)))]))
  /\ scoped (Ptr 7%N) [op_reset (WindowPtr.get (mk_unique_ptr (Ptr 7%N)))] []
     = ([], teardown_calls (Ptr 7%N) ++ teardown_calls (Ptr 7%N))
  /\ occurrences (Ptr 7%N)
       (destroyed (teardown_calls (Ptr 7%N) ++ teardown_calls (Ptr 7%N))) = 2%nat
  /\ ~ (forall (p0 : pointer WINDOW) (ops : list owner_op) (h : pointer WINDOW),
          h <> nullptr -> h ∈ acquired p0 ops ->
          occurrences h (fst (scoped p0 ops ([] : list backend_call))) = 0%nat ->
          occurrences h (destroyed (snd (scoped p0 ops ([] : list backend_call))))
          = 1%nat).
Proof.
  split; [reflexivity|]. split; [reflexivity|]. split; [reflexivity|].
  intros Hclaim.
  specialize (Hclaim (Ptr 7%N) [op_reset (Ptr 7%N)] (Ptr 7%N)).
  assert (Hfalse : 2%nat = 1%nat); [|discriminate Hfalse].
  apply Hclaim.
  - discriminate.
  - apply list_elem_of_here.
  - reflexivity.
Qed.

(** ** [WINDOW_PTR]: several owners *)

Lemma reset_result {B : Type} `{Backend B} (p : pointer WINDOW) (u : WINDOW_PTR) (b : B) :
  exists b1 : B, WindowPtr.reset p u b = (mk_unique_ptr p, b1).
Proof.
  unfold_owner. simpl. destruct (is_null (stored u)).
  - exists b. reflexivity.
  - unfold_monad. destruct (delwin_functor (stored u) b) as [[] b1].
    exists b1. reflexivity.
Qed.

Lemma dtor_result {B : Type} `{Backend B} (u : WINDOW_PTR) (b : B) :
  exists b1 : B, WindowPtr.dtor u b = (tt, b1).
Proof.
  destruct (WindowPtr.dtor u b) as [[] b1]. exists b1. reflexivity.
Qed.

Lemma exclusive_insert (s : gmap nat WINDOW_PTR) (x : nat) (p : pointer WINDOW) :
  exclusive s ->
  (p = nullptr \/ forall y v, y <> x -> s !! y = Some v -> stored v <> p) ->
  exclusive (<[x := mk_unique_ptr p]> s).
Proof.
  intros Hex Hp x1 y1 u v Hu Hv Euv Hnn.
  destruct (decide (x1 = y1)) as [|Hne]; [assumption|]. exfalso.
  rewrite lookup_insert in Hu, Hv.
  destruct (decide (x = x1)) as [E1|Hx1], (decide (x = y1)) as [E2|Hy1].
  - congruence.
  - injection Hu as <-. simpl in *.
    destruct Hp as [Hp|Hp]; [congruence|].
    apply (Hp y1 v); [congruence | assumption | congruence].
  - injection Hv as <-. simpl in *.
    destruct Hp as [Hp|Hp]; [congruence|].
    apply (Hp x1 u); [congruence | assumption | congruence].
  - apply Hne. apply (Hex x1 y1 u v); assumption.
Qed.

Lemma exclusive_delete (s : gmap nat WINDOW_PTR) (x : nat) :
  exclusive s -> exclusive (delete x s).
Proof.
  intros Hex x1 y1 u v Hu Hv.
  apply lookup_delete_Some in Hu as [_ Hu]. apply lookup_delete_Some in Hv as [_ Hv].
  apply (Hex x1 y1 u v); assumption.
Qed.

(** Moving out of [x] into [y]: [x] is emptied first, then [y] takes what
    [x] held. *)
Lemma exclusive_transfer (s : gmap nat WINDOW_PTR) (y x : nat) (src : WINDOW_PTR) :
  exclusive s -> s !! x = Some src ->
  exclusive (<[y := mk_unique_ptr (stored src)]> (<[x := mk_unique_ptr nullptr]> s)).
Proof.
  intros Hex Hx. apply exclusive_insert.
  - apply exclusive_insert; [assumption | left; reflexivity].
  - destruct (is_null (stored src)) eqn:Enull.
    + left. apply is_null_true. assumption.
    + right. apply is_null_false in Enull. intros y1 v Hy1 Hv Ev.
      rewrite lookup_insert in Hv. destruct (decide (x = y1)) as [->|Hne].
      * injection Hv as <-. simpl in Ev. congruence.
      * assert (y1 = x); [|congruence].
        apply (Hex y1 x v src); [assumption | assumption | assumption |].
        rewrite Ev. assumption.
Qed.

Lemma not_held (p : pointer WINDOW) (s : gmap nat WINDOW_PTR) :
  is_null p || negb (held p s) = true ->
  p = nullptr \/ forall y v, s !! y = Some v -> stored v <> p.
Proof.
  intros Hp. apply orb_true_iff in Hp as [Hp|Hp].
  - left. apply is_null_true. assumption.
  - right. intros y v Hv Ev. apply negb_true_iff in Hp.
    assert (held p s = true) as Hheld; [|congruence].
    unfold held. apply existsb_exists. exists (y, v). split.
    + apply list_elem_of_In. apply elem_of_map_to_list. assumption.
    + simpl. apply pointer_eqb_eq. assumption.
Qed.

Lemma step_exclusive {B : Type} `{Backend B} (st : stmt)
  (s s' : gmap nat WINDOW_PTR) (b b' : B) :
  exclusive s -> raw_fresh st s = true -> step st s b = (Some s', b') ->
  exclusive s'.
Proof.
  intros Hex Hfresh Hstep.
  destruct st as [x p|y x|y x|y x|y x|x p|x|x]; simpl in Hstep; unfold ret in Hstep.
  - destruct (s !! x) eqn:Ex; [discriminate Hstep|].
    inversion Hstep; subst. apply exclusive_insert; [assumption|].
    destruct (not_held _ _ Hfresh) as [Hp|Hp]; [left; assumption | right; intros; eauto].
  - destruct (s !! y) eqn:Ey; [discriminate Hstep|].
    destruct (s !! x) as [src|] eqn:Ex; [|discriminate Hstep].
    inversion Hstep; subst. apply exclusive_transfer; assumption.
  - discriminate Hstep.
  - destruct (s !! x) as [src|] eqn:Ex; [|discriminate Hstep].
    unfold_monad. unfold WindowPtr.release, UniquePtr.release, UniquePtr.get, ret in Hstep.
    simpl in Hstep.
    match type of Hstep with
    | context [match ?o with Some _ => _ | None => _ end] =>
        destruct o as [dst|] eqn:Ey
    end; cbv beta in Hstep; [|discriminate Hstep].
    destruct (reset_result (stored src) dst b) as [b1 Er]. rewrite Er in Hstep.
    inversion Hstep; subst. apply exclusive_transfer; assumption.
  - discriminate Hstep.
  - destruct (s !! x) as [u|] eqn:Ex; [|discriminate Hstep].
    unfold_monad. destruct (reset_result p u b) as [b1 Er]. rewrite Er in Hstep.
    inversion Hstep; subst. apply exclusive_insert; [assumption|].
    destruct (not_held _ _ Hfresh) as [Hp|Hp]; [left; assumption | right; intros; eauto].
  - destruct (s !! x) as [u|] eqn:Ex; [|discriminate Hstep].
    inversion Hstep; subst. apply exclusive_insert; [assumption | left; reflexivity].
  - destruct (s !! x) as [u|] eqn:Ex; [|discriminate Hstep].
    unfold_monad. destruct (dtor_result u b) as [b1 Er]. rewrite Er in Hstep.
    inversion Hstep; subst. apply exclusive_delete; assumption.
Qed.

Lemma run_exclusive {B : Type} `{Backend B} (prog : list stmt) :
  forall (s s' : gmap nat WINDOW_PTR) (b b' : B),
    exclusive s -> raw_fresh_prog prog s b = true ->
    run prog s b = (Some s', b') ->
    exclusive s'.
Proof.
  induction prog as [|st prog IH]; intros s s' b b' Hex Hfresh Hrun.
  - inversion Hrun; subst. assumption.
  - simpl in Hrun, Hfresh. apply andb_true_iff in Hfresh as [Hst Hrest].
    unfold mbind, M_bind, bind in Hrun.
    destruct (step st s b) as [[s1|] b1] eqn:Estep.
    + apply (IH s1 s' b1 b'); [|assumption|assumption].
      apply (step_exclusive st s s1 b b1); assumption.
    + discriminate Hrun.
Qed.

Lemma hands_no_raw_fresh {B : Type} `{Backend B} (prog : list stmt) :
  forallb hands_no_raw prog = true ->
  forall (s : gmap nat WINDOW_PTR) (b : B), raw_fresh_prog prog s b = true.
Proof.
  induction prog as [|st prog IH]; intros Hraw s b; [reflexivity|].
  simpl in Hraw. apply andb_true_iff in Hraw as [Hst Hprog].
  simpl. apply andb_true_iff. split.
  - destruct st; try reflexivity; simpl in *; rewrite Hst; reflexivity.
  - destruct (step st s b) as [[s1|] b1]; [apply IH; assumption | reflexivity].
Qed.

(** C7: a statement that copies a [WINDOW_PTR], by construction or by
    assignment, is rejected, whatever the owners hold.  Move construction
    gives the destination what the source held and leaves the source holding
    [nullptr], with no backend call; move assignment between two different
    owners does the same after tearing down what the destination held.  So,
    in a block whose owners hold pairwise different non-null handles, and
    whose raw pointers given to [WINDOW_PTR( p )] and [reset( p )] are null
    or not held by an owner at that point, the owners still hold pairwise
    different non-null handles after any accepted sequence of statements; in
    particular after any accepted sequence of moves, [release()] calls,
    resets to null and scope ends, with no condition on it. *)
Theorem WINDOW_PTR_exclusive_ownership :
  (forall (B : Type) (backend : Backend B) (s : gmap nat WINDOW_PTR)
          (y x : nat) (b : B),
      step (decl_copy y x) s b = (None, b)
      /\ step (assign_copy y x) s b = (None, b))
  /\ (forall (B : Type) (backend : Backend B) (src : WINDOW_PTR) (b : B),
        WindowPtr.move_ctor src b
        = ((mk_unique_ptr (WindowPtr.get src), mk_unique_ptr nullptr), b))
  /\ (forall (B : Type) (backend : Backend B) (s : gmap nat WINDOW_PTR)
             (y x : nat) (src : WINDOW_PTR) (b : B),
        s !! y = None -> s !! x = Some src ->
        step (decl_move y x) s b
        = (Some (<[y := mk_unique_ptr (WindowPtr.get src)]>
                   (<[x := mk_unique_ptr nullptr]> s)), b))
  /\ (forall (B : Type) (backend : Backend B) (s : gmap nat WINDOW_PTR)
             (y x : nat) (src dst : WINDOW_PTR) (b : B),
        x <> y -> s !! x = Some src -> s !! y = Some dst ->
        step (assign_move y x) s b
        = (Some (<[y := mk_unique_ptr (WindowPtr.get src)]>
                   (<[x := mk_unique_ptr nullptr]> s)),
           snd (WindowPtr.dtor dst b)))
  /\ (forall (B : Type) (backend : Backend B) (prog : list stmt)
             (s s' : gmap nat WINDOW_PTR) (b b' : B),
        exclusive s -> raw_fresh_prog prog s b = true ->
        run prog s b = (Some s', b') ->
        exclusive s')
  /\ (forall (B : Type) (backend : Backend B) (prog : list stmt)
             (s s' : gmap nat WINDOW_PTR) (b b' : B),
        exclusive s -> forallb hands_no_raw prog = true ->
        run prog s b = (Some s', b') ->
        exclusive s').
Proof.
  split; [|split; [|split; [|split; [|split]]]].
  - intros B backend s y x b. split; reflexivity.
  - intros B backend src b. reflexivity.
  - intros B backend s y x src b Hy Hx. simpl. rewrite Hy, Hx. reflexivity.
  - intros B backend s y x src dst b Hne Hx Hy. simpl. rewrite Hx.
    unfold_monad. unfold WindowPtr.release, UniquePtr.release, UniquePtr.get, ret.
    simpl. rewrite lookup_insert_ne by assumption. rewrite Hy.
    unfold_owner. simpl. destruct (is_null (stored dst)); [reflexivity|].
    unfold_monad. destruct (delwin_functor (stored dst) b) as [[] b1]. reflexivity.
  - intros B backend prog. apply run_exclusive.
  - intros B backend prog s s' b b' Hex Hraw Hrun.
    apply (run_exclusive prog s s' b b'); [assumption | | assumption].
    apply hands_no_raw_fresh. assumption.
Qed.

Lemma WINDOW_PTR_exclusive_ownership_witness :
  let prog := [decl 0 (Ptr 7%N); decl_move 1 0; decl 2 (Ptr 9%N);
               assign_move 2 1; call_release 0; end_of_scope 2] in
  let s' : gmap nat WINDOW_PTR :=
    <[1%nat := mk_unique_ptr nullptr]> (<[0%nat := mk_unique_ptr nullptr]> ∅) in
  raw_fresh_prog prog ∅ ([] : list backend_call) = true
  /\ run prog ∅ [] = (Some s', teardown_calls (Ptr 9%N) ++ teardown_calls (Ptr 7%N))
  /\ exclusive s'.
Proof.
  intros prog s'.
  assert (Hfresh : raw_fresh_prog prog ∅ ([] : list backend_call) = true).
  { vm_compute. reflexivity. }
  assert (Hrun : run prog ∅ []
                 = (Some s', teardown_calls (Ptr 9%N) ++ teardown_calls (Ptr 7%N))).
  { vm_compute. reflexivity. }
  split; [exact Hfresh|]. split; [exact Hrun|].
  apply (proj1 (proj2 (proj2 (proj2 (proj2 WINDOW_PTR_exclusive_ownership))))
           (list backend_call) Recorder prog ∅ s' []
           (teardown_calls (Ptr 9%N) ++ teardown_calls (Ptr 7%N))).
  - intros x y u v Hu. rewrite lookup_empty in Hu. discriminate Hu.
  - exact Hfresh.
  - exact Hrun.
Defined.

(** * Further properties *)

(** ** [window] as a carrier *)

(** X1: converting a [window] to a pointer, of any requested pointee type or
    through [operator WINDOW *], and building a [window] from that pointer
    gives the same [window] back; so does copying it. *)
Theorem window_rebuilt_from_its_pointer (w : window) :
  (forall T : Type, Window.ctor (Window.get (T := T) w) = w)
  /\ Window.ctor (Window.to_WINDOW_ptr w) = w
  /\ Window.copy w = w.
Proof.
  destruct w as [[a]]. repeat split.
Qed.

Lemma window_eq (a b : window) : native_window a = native_window b -> a = b.
Proof. destruct a, b; simpl; congruence. Qed.

(** X2: comparing two [window]s through their conversion to [WINDOW *]
    decides whether they are the same value; windows built from pointers of
    two different pointee types compare equal exactly when the addresses are
    equal, and what [get] returns for any pointee type has the address the
    window was built from. *)
Theorem window_comparison_is_address_equality :
  (forall a b : window, Window.eqb a b = true <-> a = b)
  /\ (forall (T U : Type) (p : pointer T) (q : pointer U),
        Window.eqb (Window.ctor p) (Window.ctor q) = N.eqb (addr p) (addr q))
  /\ (forall (T U : Type) (p : pointer T),
        addr (Window.get (T := U) (Window.ctor p)) = addr p).
Proof.
  split; [|split].
  - intros a b. unfold Window.eqb. rewrite pointer_eqb_eq. split.
    + intros E. apply window_eq. apply pointer_eq.
      apply (f_equal addr) in E. exact E.
    + intros ->. reflexivity.
  - reflexivity.
  - reflexivity.
Qed.

(** X3: a [window] built from a pointer is null exactly when the pointer is;
    a [window] is null exactly when it is the default-constructed one, which
    is also what comparing it with the default-constructed one decides. *)
Theorem window_null_test :
  (forall (T : Type) (p : pointer T),
      Window.is_null (Window.ctor p) = is_null p)
  /\ (forall w : window, Window.is_null w = true <-> w = Window.ctor_default)
  /\ (forall w : window, Window.is_null w = Window.eqb w Window.ctor_default).
Proof.
  split; [|split].
  - reflexivity.
  - intros w. unfold Window.is_null. rewrite is_null_true. split.
    + intros E. apply window_eq. apply pointer_eq.
      apply (f_equal addr) in E. exact E.
    + intros ->. reflexivity.
  - reflexivity.
Qed.

(** ** [WINDOW_PTR]: early destruction *)

Lemma run_ops_then_reset {B : Type} `{Backend B} (ops : list owner_op)
  (p : pointer WINDOW) (u : WINDOW_PTR) (b : B) :
  run_ops (ops ++ [op_reset p]) u b
  = let '((rs, u'), b') := run_ops ops u b in
    let '(u'', b'') := WindowPtr.reset p u' b' in
    ((rs, u''), b'').
Proof.
  revert u b. induction ops as [|[q|] ops IH]; intros u b.
  - simpl. unfold_monad. destruct (WindowPtr.reset p u b) as [u1 b1]. reflexivity.
  - simpl. unfold_monad.
    destruct (WindowPtr.reset q u b) as [u1 b1]. apply IH.
  - simpl. unfold_monad. unfold WindowPtr.release, UniquePtr.release, ret.
    rewrite IH.
    destruct (run_ops ops (mk_unique_ptr nullptr) b) as [[rs u1] b1].
    destruct (WindowPtr.reset p u1 b1) as [u2 b2]. reflexivity.
Qed.

Lemma reset_null_is_dtor {B : Type} `{Backend B} (u : WINDOW_PTR) (b : B) :
  WindowPtr.reset nullptr u b = (mk_unique_ptr nullptr, snd (WindowPtr.dtor u b)).
Proof.
  unfold_owner. simpl. destruct (is_null (stored u)); [reflexivity|].
  unfold_monad. destruct (delwin_functor (stored u) b) as [[] b1]. reflexivity.
Qed.

(** X4: on every backend, [reset()] (to null) does to the backend what the
    destructor would have done and leaves the owner empty, so that a second
    [reset()] and the destructor make no call: a block that ends with
    [reset()] leaves the backend as the same block without it. *)
Theorem WINDOW_PTR_early_reset_is_scope_exit
  (B : Type) (backend : Backend B) (u : WINDOW_PTR) (b : B) :
  WindowPtr.reset nullptr u b = (mk_unique_ptr nullptr, snd (WindowPtr.dtor u b))
  /\ (forall b1 : B,
        WindowPtr.reset nullptr (mk_unique_ptr nullptr) b1 = (mk_unique_ptr nullptr, b1)
        /\ WindowPtr.dtor (mk_unique_ptr nullptr) b1 = (tt, b1))
  /\ (forall (p0 : pointer WINDOW) (ops : list owner_op),
        scoped p0 (ops ++ [op_reset nullptr]) b = scoped p0 ops b).
Proof.
  split; [|split].
  - apply reset_null_is_dtor.
  - intros b1. split; reflexivity.
  - intros p0 ops. unfold scoped. unfold_monad.
    unfold WindowPtr.ctor, UniquePtr.ctor, ret.
    rewrite run_ops_then_reset.
    destruct (run_ops ops (mk_unique_ptr p0) b) as [[rs u1] b1].
    rewrite reset_null_is_dtor.
    destruct (WindowPtr.dtor u1 b1) as [[] b2]. reflexivity.
Qed.

(** ** [WINDOW_PTR]: what a block of owners destroys *)

Lemma occurrences_Permutation (h : pointer WINDOW) (l1 l2 : list (pointer WINDOW)) :
  l1 ≡ₚ l2 -> occurrences h l1 = occurrences h l2.
Proof.
  induction 1 as [|p l1 l2 _ IH|p q l|l1 l2 l3 _ IH1 _ IH2]; simpl.
  - reflexivity.
  - rewrite IH. reflexivity.
  - lia.
  - congruence.
Qed.

Lemma holders_insert_new (h : pointer WINDOW) (s : gmap nat WINDOW_PTR)
  (x : nat) (v : WINDOW_PTR) :
  s !! x = None ->
  holders h (<[x := v]> s) = (occurrences h [stored v] + holders h s)%nat.
Proof.
  intros Hx. unfold holders.
  rewrite (occurrences_Permutation h _
             (map (fun xv : nat * WINDOW_PTR => stored (snd xv))
                  ((x, v) :: map_to_list s))).
  - simpl. lia.
  - apply Permutation_map. apply map_to_list_insert. assumption.
Qed.

Lemma holders_delete (h : pointer WINDOW) (s : gmap nat WINDOW_PTR)
  (x : nat) (u : WINDOW_PTR) :
  s !! x = Some u ->
  (occurrences h [stored u] + holders h (delete x s))%nat = holders h s.
Proof.
  intros Hx. unfold holders.
  rewrite <- (occurrences_Permutation h _ _
                (Permutation_map (fun xv : nat * WINDOW_PTR => stored (snd xv))
                   (map_to_list_delete s x u Hx))).
  simpl. lia.
Qed.

Lemma holders_insert_over (h : pointer WINDOW) (s : gmap nat WINDOW_PTR)
  (x : nat) (u v : WINDOW_PTR) :
  s !! x = Some u ->
  (holders h (<[x := v]> s) + occurrences h [stored u])%nat
  = (holders h s + occurrences h [stored v])%nat.
Proof.
  intros Hx. rewrite <- (insert_delete_eq s x v).
  rewrite holders_insert_new by apply lookup_delete_eq.
  pose proof (holders_delete h s x u Hx). lia.
Qed.

Lemma occurrences_null (h : pointer WINDOW) :
  h <> nullptr -> occurrences h [nullptr] = 0%nat.
Proof.
  intros Hh. simpl. destruct (pointer_eqb h nullptr) eqn:E; [|reflexivity].
  apply pointer_eqb_eq in E. contradiction.
Qed.

Lemma torn_down_not_null (p : pointer WINDOW) :
  Forall (fun d => d <> nullptr) (torn_down p).
Proof.
  unfold torn_down. destruct (is_null p) eqn:E; constructor.
  - apply is_null_false. assumption.
  - constructor.
Qed.

(** One statement on the recording backend: the calls are the teardowns of
    non-null windows [ds], and handles are neither made nor lost. *)
Ltac count_norm h :=
  unfold WindowPtr.get, UniquePtr.get in *;
  cbn [released_by adopted_by stored] in *;
  change (occurrences h []) with 0%nat in *.

Lemma step_recorded (st : stmt) (s s' : gmap nat WINDOW_PTR)
  (tr tr' : list backend_call) :
  step st s tr = (Some s', tr') ->
  exists ds : list (pointer WINDOW),
    tr' = tr ++ flat_map teardown_calls ds
    /\ Forall (fun d => d <> nullptr) ds
    /\ forall h : pointer WINDOW, h <> nullptr ->
         (occurrences h ds + holders h s' + occurrences h (released_by st s)
          = holders h s + occurrences h (adopted_by st))%nat.
Proof.
  intros Hstep.
  destruct st as [x p|y x|y x|y x|y x|x p|x|x]; simpl in Hstep; unfold ret in Hstep.
  - destruct (s !! x) eqn:Ex; [discriminate Hstep|].
    inversion Hstep; subst. exists []. split; [|split].
    + simpl. rewrite app_nil_r. reflexivity.
    + constructor.
    + intros h Hh. rewrite holders_insert_new by assumption. count_norm h. lia.
  - destruct (s !! y) eqn:Ey; [discriminate Hstep|].
    destruct (s !! x) as [src|] eqn:Ex; [|discriminate Hstep].
    inversion Hstep; subst. exists []. split; [|split].
    + simpl. rewrite app_nil_r. reflexivity.
    + constructor.
    + intros h Hh.
      assert (Hne : x <> y) by congruence.
      rewrite holders_insert_new by (rewrite lookup_insert_ne; assumption).
      pose proof (holders_insert_over h s x src (mk_unique_ptr nullptr) Ex) as Hx.
      simpl stored in Hx. rewrite (occurrences_null h Hh) in Hx.
      count_norm h. lia.
  - discriminate Hstep.
  - destruct (s !! x) as [src|] eqn:Ex; [|discriminate Hstep].
    unfold_monad. unfold WindowPtr.release, UniquePtr.release, UniquePtr.get, ret in Hstep.
    simpl in Hstep.
    match type of Hstep with
    | context [match ?o with Some _ => _ | None => _ end] =>
        destruct o as [dst|] eqn:Ey
    end; cbv beta in Hstep; [|discriminate Hstep].
    rewrite reset_recorded, torn_down_calls in Hstep.
    inversion Hstep; subst. exists (torn_down (stored dst)). split; [|split].
    + reflexivity.
    + apply torn_down_not_null.
    + intros h Hh.
      pose proof (holders_insert_over h s x src (mk_unique_ptr nullptr) Ex) as Hx.
      pose proof (holders_insert_over h _ y dst (mk_unique_ptr (stored src)) Ey) as Hy.
      simpl stored in Hx, Hy. rewrite (occurrences_null h Hh) in Hx.
      rewrite (occurrences_torn_down h _ Hh). count_norm h. lia.
  - discriminate Hstep.
  - destruct (s !! x) as [u|] eqn:Ex; [|discriminate Hstep].
    unfold_monad. rewrite reset_recorded, torn_down_calls in Hstep.
    inversion Hstep; subst. exists (torn_down (stored u)). split; [|split].
    + reflexivity.
    + apply torn_down_not_null.
    + intros h Hh.
      pose proof (holders_insert_over h s x u (mk_unique_ptr p) Ex) as Hx.
      simpl stored in Hx.
      rewrite (occurrences_torn_down h _ Hh). count_norm h. lia.
  - destruct (s !! x) as [u|] eqn:Ex; [|discriminate Hstep].
    inversion Hstep; subst. exists []. split; [|split].
    + simpl. rewrite app_nil_r. reflexivity.
    + constructor.
    + intros h Hh.
      pose proof (holders_insert_over h s x u (mk_unique_ptr nullptr) Ex) as Hx.
      simpl stored in Hx. rewrite (occurrences_null h Hh) in Hx.
      cbn [released_by]. rewrite Ex. unfold WindowPtr.get, UniquePtr.get.
      count_norm h. lia.
  - destruct (s !! x) as [u|] eqn:Ex; [|discriminate Hstep].
    unfold_monad. rewrite dtor_recorded, torn_down_calls in Hstep.
    inversion Hstep; subst. exists (torn_down (stored u)). split; [|split].
    + reflexivity.
    + apply torn_down_not_null.
    + intros h Hh. pose proof (holders_delete h s x u Ex) as Hx.
      rewrite (occurrences_torn_down h _ Hh). count_norm h. lia.
Qed.

Lemma adopted_cons (st : stmt) (prog : list stmt) :
  adopted (st :: prog) = adopted_by st ++ adopted prog.
Proof. reflexivity. Qed.

Lemma run_recorded (prog : list stmt) :
  forall (s s' : gmap nat WINDOW_PTR) (tr tr' : list backend_call),
    run prog s tr = (Some s', tr') ->
    exists ds : list (pointer WINDOW),
      tr' = tr ++ flat_map teardown_calls ds
      /\ Forall (fun d => d <> nullptr) ds
      /\ forall h : pointer WINDOW, h <> nullptr ->
           (occurrences h ds + holders h s' + occurrences h (released prog s tr)
            = holders h s + occurrences h (adopted prog))%nat.
Proof.
  induction prog as [|st prog IH]; intros s s' tr tr' Hrun.
  - inversion Hrun; subst. exists []. split; [|split].
    + simpl. rewrite app_nil_r. reflexivity.
    + constructor.
    + intros h _. reflexivity.
  - simpl in Hrun. unfold mbind, M_bind, bind in Hrun.
    destruct (step st s tr) as [[s1|] tr1] eqn:Estep; [|discriminate Hrun].
    destruct (step_recorded st s s1 tr tr1 Estep) as (ds1 & E1 & Hnn1 & Hcount1).
    destruct (IH s1 s' tr1 tr' Hrun) as (ds2 & E2 & Hnn2 & Hcount2).
    exists (ds1 ++ ds2). split; [|split].
    + rewrite E2, E1, flat_map_app, app_assoc. reflexivity.
    + apply Forall_app. split; assumption.
    + intros h Hh. specialize (Hcount1 h Hh). specialize (Hcount2 h Hh).
      cbn [released]. rewrite Estep, adopted_cons, !occurrences_app. lia.
Qed.

Lemma holders_empty (h : pointer WINDOW) : holders h ∅ = 0%nat.
Proof. unfold holders. rewrite map_to_list_empty. reflexivity. Qed.

(** X5: for any accepted block of statements on owners, run against the
    recording backend, and every non-null handle: the number of times it is
    destroyed, plus the number of owners holding it at the end, plus the
    number of times a [release()] returned it, is the number of owners holding
    it at the start plus the number of times it was given to a constructor or
    to [reset].  Moves between owners neither duplicate nor lose a handle.  In
    particular, in a block that starts and ends without owners, every handle
    given to an owner is destroyed once per time it was given, unless
    released. *)
Theorem owners_conserve_handles
  (prog : list stmt) (s s' : gmap nat WINDOW_PTR) (tr tr' : list backend_call) :
  run prog s tr = (Some s', tr') ->
  exists calls : list backend_call,
    tr' = tr ++ calls
    /\ (forall h : pointer WINDOW, h <> nullptr ->
          (occurrences h (destroyed calls) + holders h s'
           + occurrences h (released prog s tr)
           = holders h s + occurrences h (adopted prog))%nat)
    /\ (s = ∅ -> s' = ∅ ->
        forall h : pointer WINDOW, h <> nullptr ->
          (occurrences h (destroyed calls) + occurrences h (released prog s tr)
           = occurrences h (adopted prog))%nat).
Proof.
  intros Hrun.
  destruct (run_recorded prog s s' tr tr' Hrun) as (ds & E & _ & Hcount).
  exists (flat_map teardown_calls ds). rewrite destroyed_teardowns.
  split; [exact E|]. split; [exact Hcount|].
  intros -> -> h Hh. specialize (Hcount h Hh).
  rewrite !holders_empty in Hcount. lia.
Qed.

Lemma owners_conserve_handles_witness :
  let prog := [decl 0 (Ptr 7%N); decl_move 1 0; decl 2 (Ptr 9%N);
               assign_move 2 1; call_reset 0 (Ptr 4%N); call_release 0;
               end_of_scope 2; end_of_scope 1; end_of_scope 0] in
  let calls := teardown_calls (Ptr 9%N) ++ teardown_calls (Ptr 7%N) in
  run prog ∅ [] = (Some ∅, calls)
  /\ released prog ∅ ([] : list backend_call) = [Ptr 4%N]
  /\ occurrences (Ptr 7%N) (destroyed calls) = 1%nat
  /\ occurrences (Ptr 4%N) (destroyed calls) = 0%nat.
Proof.
  intros prog calls.
  assert (Hrun : run prog ∅ [] = (Some ∅, calls)) by (vm_compute; reflexivity).
  assert (Hrel : released prog ∅ ([] : list backend_call) = [Ptr 4%N])
    by (vm_compute; reflexivity).
  destruct (owners_conserve_handles prog ∅ ∅ [] calls Hrun)
    as (calls' & E & _ & Hblock).
  simpl in E. subst calls'.
  split; [exact Hrun|]. split; [exact Hrel|].
  assert (H7 : Ptr (T := WINDOW) 7%N <> nullptr) by discriminate.
  assert (H4 : Ptr (T := WINDOW) 4%N <> nullptr) by discriminate.
  pose proof (Hblock eq_refl eq_refl (Ptr 7%N) H7) as C7.
  pose proof (Hblock eq_refl eq_refl (Ptr 4%N) H4) as C4.
  rewrite Hrel in C7, C4.
  change (occurrences (Ptr 7%N) [Ptr 4%N]) with 0%nat in C7.
  change (occurrences (Ptr 7%N) (adopted prog)) with 1%nat in C7.
  change (occurrences (Ptr 4%N) [Ptr 4%N]) with 1%nat in C4.
  change (occurrences (Ptr 4%N) (adopted prog)) with 1%nat in C4.
  split; lia.
Defined.

Lemma teardown_calls_not_null (ds : list (pointer WINDOW)) :
  Forall (fun d => d <> nullptr) ds ->
  Forall (fun c => Window.is_null (call_window c) = false)
         (flat_map teardown_calls ds).
Proof.
  induction 1 as [|d ds Hd _ IH]; [constructor|].
  apply is_null_false in Hd.
  change (flat_map teardown_calls (d :: ds))
    with (teardown_calls d ++ flat_map teardown_calls ds).
  apply Forall_app. split; [|exact IH].
  repeat constructor; exact Hd.
Qed.

(** X6: whatever accepted block of statements on owners runs against the
    recording backend, the calls it adds are whole teardowns ([werase],
    [wrefresh], [delwin] on one window, in that order) and none of them is
    made on a null window. *)
Theorem owners_never_touch_null_window
  (prog : list stmt) (s s' : gmap nat WINDOW_PTR) (tr tr' : list backend_call) :
  run prog s tr = (Some s', tr') ->
  exists calls : list backend_call,
    tr' = tr ++ calls
    /\ calls = flat_map teardown_calls (destroyed calls)
    /\ Forall (fun c => Window.is_null (call_window c) = false) calls.
Proof.
  intros Hrun.
  destruct (run_recorded prog s s' tr tr' Hrun) as (ds & E & Hnn & _).
  exists (flat_map teardown_calls ds). rewrite destroyed_teardowns.
  split; [exact E|]. split; [reflexivity|].
  apply teardown_calls_not_null. exact Hnn.
Qed.

Lemma owners_never_touch_null_window_witness :
  let prog := [decl 0 nullptr; decl 1 (Ptr 7%N); assign_move 0 1;
               call_reset 1 nullptr; end_of_scope 1; end_of_scope 0] in
  run prog ∅ [] = (Some ∅, teardown_calls (Ptr 7%N))
  /\ Forall (fun c => Window.is_null (call_window c) = false)
            (teardown_calls (Ptr 7%N)).
Proof.
  intros prog.
  assert (Hrun : run prog ∅ [] = (Some ∅, teardown_calls (Ptr 7%N)))
    by (vm_compute; reflexivity).
  destruct (owners_never_touch_null_window prog ∅ ∅ [] _ Hrun)
    as (calls & E & _ & Hnn).
  simpl in E. subst calls. split; [exact Hrun | exact Hnn].
Defined.

(** ** [WINDOW_PTR]: moves *)

Lemma unique_ptr_eta (u : unique_ptr) : mk_unique_ptr (stored u) = u.
Proof. destruct u. reflexivity. Qed.

(** X7: assigning an owner to itself by move, [x = std::move( x );], is
    accepted and changes nothing: the owner holds what it held and no backend
    is called. *)
Theorem self_move_assignment_changes_nothing
  (B : Type) (backend : Backend B) (s : gmap nat WINDOW_PTR)
  (x : nat) (u : WINDOW_PTR) (b : B) :
  s !! x = Some u ->
  step (assign_move x x) s b = (Some s, b).
Proof.
  intros Hx. simpl. rewrite Hx.
  unfold_monad. unfold WindowPtr.release, UniquePtr.release, UniquePtr.get, ret.
  simpl. rewrite lookup_insert_eq.
  unfold WindowPtr.reset, UniquePtr.reset, UniquePtr.get, ret. simpl.
  rewrite insert_insert_eq, unique_ptr_eta, (insert_id s x u Hx). reflexivity.
Qed.

Lemma self_move_assignment_changes_nothing_witness :
  let s : gmap nat WINDOW_PTR := <[0%nat := mk_unique_ptr (Ptr 7%N)]> ∅ in
  step (assign_move 0 0) s ([] : list backend_call) = (Some s, []).
Proof.
  intros s.
  apply (self_move_assignment_changes_nothing
           (list backend_call) Recorder s 0%nat (mk_unique_ptr (Ptr 7%N)) []).
  apply lookup_insert_eq.
Defined.

Lemma step_decl_move {B : Type} `{Backend B} (s : gmap nat WINDOW_PTR)
  (y x : nat) (src : WINDOW_PTR) (b : B) :
  s !! y = None -> s !! x = Some src ->
  step (decl_move y x) s b
  = (Some (<[y := mk_unique_ptr (stored src)]> (<[x := mk_unique_ptr nullptr]> s)), b).
Proof. intros Hy Hx. simpl. rewrite Hy, Hx. reflexivity. Qed.

Lemma step_assign_move {B : Type} `{Backend B} (s : gmap nat WINDOW_PTR)
  (y x : nat) (src dst : WINDOW_PTR) (b : B) :
  x <> y -> s !! x = Some src -> s !! y = Some dst ->
  step (assign_move y x) s b
  = (Some (<[y := mk_unique_ptr (stored src)]> (<[x := mk_unique_ptr nullptr]> s)),
     snd (WindowPtr.dtor dst b)).
Proof.
  intros Hne Hx Hy. simpl. rewrite Hx.
  unfold_monad. unfold WindowPtr.release, UniquePtr.release, UniquePtr.get, ret.
  simpl. rewrite lookup_insert_ne by assumption. rewrite Hy.
  unfold_owner. simpl. destruct (is_null (stored dst)); [reflexivity|].
  unfold_monad. destruct (delwin_functor (stored dst) b) as [[] b1]. reflexivity.
Qed.

(** X8: moving an owner [x] into a new owner [y] and then assigning [y] back
    to [x] by move is accepted, calls no backend, and leaves [x] holding what
    it held, with [y] empty and every other owner as it was. *)
Theorem move_there_and_back
  (B : Type) (backend : Backend B) (s : gmap nat WINDOW_PTR)
  (x y : nat) (u : WINDOW_PTR) (b : B) :
  s !! x = Some u -> s !! y = None ->
  run [decl_move y x; assign_move x y] s b
  = (Some (<[y := mk_unique_ptr nullptr]> s), b).
Proof.
  intros Hx Hy.
  assert (Hne : x <> y) by congruence.
  assert (Hne' : y <> x) by congruence.
  cbn [run]. unfold mbind, M_bind, bind.
  rewrite (step_decl_move s y x u b Hy Hx).
  rewrite (step_assign_move _ x y (mk_unique_ptr (stored u))
             (mk_unique_ptr nullptr) b Hne').
  - unfold ret. cbn [stored]. f_equal. f_equal. apply map_eq. intros i.
    rewrite !lookup_insert.
    destruct (decide (x = i)) as [Exi|Hxi], (decide (y = i)) as [Eyi|Hyi];
      try congruence.
    subst i. rewrite unique_ptr_eta. symmetry. exact Hx.
  - apply lookup_insert_eq.
  - rewrite lookup_insert_ne by exact Hne'. apply lookup_insert_eq.
Qed.

Lemma move_there_and_back_witness :
  let s : gmap nat WINDOW_PTR := <[0%nat := mk_unique_ptr (Ptr 7%N)]> ∅ in
  run [decl_move 1 0; assign_move 0 1] s ([] : list backend_call)
  = (Some (<[1%nat := mk_unique_ptr nullptr]> s), []).
Proof.
  intros s.
  apply (move_there_and_back
           (list backend_call) Recorder s 0%nat 1%nat (mk_unique_ptr (Ptr 7%N)) []).
  - apply lookup_insert_eq.
  - vm_compute. reflexivity.
Defined.

(** ** [WINDOW_PTR]: no owner is left with a destroyed window *)

Lemma occurrences_pos (h : pointer WINDOW) (l : list (pointer WINDOW)) :
  h ∈ l -> (1 <= occurrences h l)%nat.
Proof.
  induction l as [|q l IH]; intros Hin.
  - inversion Hin.
  - apply elem_of_cons in Hin as [->|Hin]; simpl.
    + rewrite pointer_eqb_refl. lia.
    + specialize (IH Hin). lia.
Qed.

Lemma occurrences_pos_inv {A : Type} (f : A -> pointer WINDOW)
  (h : pointer WINDOW) (l : list A) :
  (1 <= occurrences h (map f l))%nat -> exists a, a ∈ l /\ f a = h.
Proof.
  induction l as [|a l IH]; simpl; [lia|].
  destruct (pointer_eqb h (f a)) eqn:E.
  - intros _. exists a. split; [apply list_elem_of_here|].
    apply pointer_eqb_eq in E. congruence.
  - intros Hl. destruct (IH Hl) as (a' & Ha' & Ef).
    exists a'. split; [apply list_elem_of_further; assumption | assumption].
Qed.

Lemma not_held_holders (h : pointer WINDOW) (s : gmap nat WINDOW_PTR) :
  held h s = false -> holders h s = 0%nat.
Proof.
  unfold held, holders. induction (map_to_list s) as [|[x v] l IH]; [reflexivity|].
  simpl. intros Hl. apply orb_false_iff in Hl as [Hv Hl].
  rewrite (IH Hl). unfold pointer_eqb in *. rewrite N.eqb_sym, Hv. reflexivity.
Qed.

Lemma exclusive_holders (h : pointer WINDOW) (s : gmap nat WINDOW_PTR) :
  exclusive s -> h <> nullptr -> (holders h s <= 1)%nat.
Proof.
  intros Hex Hh. unfold holders.
  assert (Hin : forall xv, xv ∈ map_to_list s -> s !! fst xv = Some (snd xv)).
  { intros [x v] Hxv. apply elem_of_map_to_list. assumption. }
  pose proof (NoDup_fst_map_to_list s) as Hnd.
  induction (map_to_list s) as [|[x v] l IH]; [simpl; lia|].
  apply NoDup_cons in Hnd as [Hx Hnd]. simpl.
  assert (Hl : (occurrences h
                  (map (fun xv : nat * WINDOW_PTR => stored (snd xv)) l) <= 1)%nat).
  { apply IH; [|assumption]. intros xv Hxv. apply Hin.
    apply list_elem_of_further. assumption. }
  destruct (pointer_eqb h (stored v)) eqn:E; [|lia].
  apply pointer_eqb_eq in E.
  destruct (occurrences h (map (fun xv : nat * WINDOW_PTR => stored (snd xv)) l))
    as [|n] eqn:En; [lia|]. exfalso.
  destruct (occurrences_pos_inv (fun xv : nat * WINDOW_PTR => stored (snd xv)) h l)
    as ([y w] & Hyw & Ew); [lia|]. simpl in Ew.
  assert (x = y).
  { apply (Hex x y v w).
    - apply (Hin (x, v)). apply list_elem_of_here.
    - apply (Hin (y, w)). apply list_elem_of_further. assumption.
    - congruence.
    - congruence. }
  subst y. apply Hx. apply list_elem_of_fmap. exists (x, w). split; [reflexivity | assumption].
Qed.

(** X10: when no two owners hold the same non-null handle and the raw
    pointer a statement gives to an owner, if any, is null or held by no
    owner, then after the statement no owner holds a window that the
    statement destroyed: a teardown never leaves another owner with a
    destroyed window, and each window the statement destroys is destroyed by
    it once. *)
Theorem teardown_leaves_no_holder
  (st : stmt) (s s' : gmap nat WINDOW_PTR) (tr tr' : list backend_call) :
  exclusive s -> raw_fresh st s = true ->
  step st s tr = (Some s', tr') ->
  exists calls : list backend_call,
    tr' = tr ++ calls
    /\ forall h : pointer WINDOW, h ∈ destroyed calls ->
         holders h s' = 0%nat /\ occurrences h (destroyed calls) = 1%nat.
Proof.
  intros Hex Hfresh Hstep.
  destruct (step_recorded st s s' tr tr' Hstep) as (ds & E & Hnn & Hcount).
  exists (flat_map teardown_calls ds). rewrite destroyed_teardowns.
  split; [exact E|]. intros h Hh.
  assert (Hnull : h <> nullptr).
  { rewrite Forall_forall in Hnn. apply Hnn. assumption. }
  specialize (Hcount h Hnull).
  pose proof (occurrences_pos h ds Hh) as Hpos.
  pose proof (exclusive_holders h s Hex Hnull) as Hone.
  assert (Hadopt : (holders h s + occurrences h (adopted_by st) <= 1)%nat).
  { destruct st as [x p|y x|y x|y x|y x|x p|x|x];
      try (cbn [adopted_by]; change (occurrences h []) with 0%nat; lia).
    - cbn [adopted_by]. simpl occurrences.
      destruct (pointer_eqb h p) eqn:Ep; [|lia].
      apply pointer_eqb_eq in Ep. subst p.
      simpl in Hfresh. apply orb_true_iff in Hfresh as [Hf|Hf].
      + apply is_null_true in Hf. contradiction.
      + apply negb_true_iff in Hf. rewrite (not_held_holders h s Hf). lia.
    - cbn [adopted_by]. simpl occurrences.
      destruct (pointer_eqb h p) eqn:Ep; [|lia].
      apply pointer_eqb_eq in Ep. subst p.
      simpl in Hfresh. apply orb_true_iff in Hfresh as [Hf|Hf].
      + apply is_null_true in Hf. contradiction.
      + apply negb_true_iff in Hf. rewrite (not_held_holders h s Hf). lia. }
  lia.
Qed.

Lemma teardown_leaves_no_holder_witness :
  let s : gmap nat WINDOW_PTR :=
    <[1%nat := mk_unique_ptr (Ptr 9%N)]> (<[0%nat := mk_unique_ptr (Ptr 7%N)]> ∅) in
  let s' : gmap nat WINDOW_PTR :=
    <[1%nat := mk_unique_ptr (Ptr 7%N)]> (<[0%nat := mk_unique_ptr nullptr]> ∅) in
  step (assign_move 1 0) s [] = (Some s', teardown_calls (Ptr 9%N))
  /\ holders (Ptr 9%N) s' = 0%nat.
Proof.
  intros s s'.
  assert (Hstep : step (assign_move 1 0) s [] = (Some s', teardown_calls (Ptr 9%N)))
    by (vm_compute; reflexivity).
  split; [exact Hstep|].
  destruct (teardown_leaves_no_holder (assign_move 1 0) s s' []
              (teardown_calls (Ptr 9%N))) as (calls & E & Hgone).
  - intros x y u v Hu Hv Euv Hnn.
    unfold s in Hu, Hv.
    rewrite lookup_insert in Hu, Hv.
    destruct (decide (1%nat = x)) as [<-|Hx1], (decide (1%nat = y)) as [<-|Hy1];
      try reflexivity.
    + injection Hu as <-. rewrite lookup_insert in Hv.
      destruct (decide (0%nat = y)) as [<-|Hy0].
      * injection Hv as <-. discriminate Euv.
      * rewrite lookup_empty in Hv. discriminate Hv.
    + injection Hv as <-. rewrite lookup_insert in Hu.
      destruct (decide (0%nat = x)) as [<-|Hx0].
      * injection Hu as <-. discriminate Euv.
      * rewrite lookup_empty in Hu. discriminate Hu.
    + rewrite lookup_insert in Hu, Hv.
      destruct (decide (0%nat = x)) as [<-|Hx0], (decide (0%nat = y)) as [<-|Hy0];
        try reflexivity.
      * rewrite lookup_empty in Hv. discriminate Hv.
      * rewrite lookup_empty in Hu. discriminate Hu.
      * rewrite lookup_empty in Hu. discriminate Hu.
  - reflexivity.
  - exact Hstep.
  - simpl in E. subst calls. apply (Hgone (Ptr 9%N)).
    vm_compute. apply list_elem_of_here.
Defined.
